(** * Iterator facades of dune-common: a shallow embedding

    The development follows [common/iteratorfacades.hh] (the three facade
    classes and the free operators synthesized for them),
    [dune/common/typetraits.hh] ([IsInteroperable], [EnableIfInterOperable])
    and [dune/common/math.hh] ([sign]).

    Conventions of the embedding.
    - A concrete iterator type [T] is a Rocq type whose values are the states
      of an iterator object.  The primitives the derived class has to supply
      are type-class methods; a [void] primitive that mutates [*this] is a
      function from the old state to the new one.
    - A non-[const] member function of a facade runs in a state-and-error
      monad over a store of iterator objects and receives the address [this].
      Copy construction allocates a fresh object; a local is destroyed when
      the function returns.
    - [const] member functions and the free binary operators only read their
      arguments and are pure functions of the object states.
    - [DifferenceType] is a signed integer type ([std::ptrdiff_t] by default);
      signed overflow is undefined in C++, so its values are read as
      mathematical integers.
    - A free operator whose return type is [EnableIfInterOperable<..>::type]
      yields [None] when the overload is removed from the overload set. *)

From stdpp Require Import gmap list.
From Stdlib Require Import ZArith Lia.
From Stdlib Require Import FunInd Recdef.

Local Open Scope Z_scope.

(** ** The object store *)

Definition loc := nat.

Definition DifferenceType := Z.

Section ObjectStore.
Context {T : Type}.

(** Computations over a store of objects of type [T]; [None] is an access to
    an object that does not exist. *)
Definition M (A : Type) : Type := gmap loc T → option (A * gmap loc T).

Definition ret {A} (a : A) : M A := λ σ, Some (a, σ).

Definition bind {A B} (m : M A) (k : A → M B) : M B :=
  λ σ, match m σ with
       | Some (a, σ') => k a σ'
       | None => None
       end.

(** Reads the state of the object at [l]. *)
Definition load (l : loc) : M T :=
  λ σ, match σ !! l with
       | Some v => Some (v, σ)
       | None => None
       end.

(** Calls a mutating primitive [f] on the object at [l]. *)
Definition call (f : T → T) (l : loc) : M unit :=
  λ σ, match σ !! l with
       | Some v => Some (tt, <[l := f v]> σ)
       | None => None
       end.

(** [DerivedType tmp(src)]: a new object, copy-constructed from [src]. *)
Definition construct_copy (src : loc) : M loc :=
  λ σ, match σ !! src with
       | Some v => let l := fresh (dom σ) in Some (l, <[l := v]> σ)
       | None => None
       end.

(** End of the lifetime of a local object. *)
Definition destroy (l : loc) : M unit :=
  λ σ, Some (tt, delete l σ).

(** [return tmp;] for a local [tmp] that is returned by value. *)
Definition return_local (tmp : loc) : M T :=
  bind (load tmp) (λ v, bind (destroy tmp) (λ _, ret v)).

End ObjectStore.

Arguments M : clear implicits.

Declare Scope facade_scope.
Delimit Scope facade_scope with facade.
Notation "x <-- m ;; k" := (bind m (λ x, k))
  (at level 100, m at next level, right associativity) : facade_scope.
Notation "m ;;; k" := (bind m (λ _, k))
  (at level 100, right associativity) : facade_scope.
Local Open Scope facade_scope.

(** ** Primitives supplied by the derived iterator class *)

(** [Reference dereference() const] *)
Class Dereference (T R : Type) := dereference : T → R.
(** [bool equals(const U& other) const] *)
Class Equals (T U : Type) := equals : T → U → bool.
(** [void increment()] *)
Class Increment (T : Type) := increment : T → T.
(** [void decrement()] *)
Class Decrement (T : Type) := decrement : T → T.
(** [Reference elementAt(DifferenceType n) const] *)
Class ElementAt (T R : Type) := elementAt : T → DifferenceType → R.
(** [void advance(DifferenceType n)] *)
Class Advance (T : Type) := advance : T → DifferenceType → T.
(** [DifferenceType distanceTo(const U& other) const] *)
Class DistanceTo (T U : Type) := distanceTo : T → U → DifferenceType.

(** ** Type traits ([typetraits.hh]) *)

(** [std::is_convertible<From,To>::value] *)
Class is_convertible (From To : Type) := is_convertible_value : bool.
Arguments is_convertible_value From To {_}.

(** Modelled from the spec: [Conversion<From,To>::exists] is used by the
    operators of [iteratorfacades.hh] but declared in none of the headers at
    hand; the dispatch rule reads it as "[From] is convertible to [To]". *)
Definition Conversion_exists (From To : Type) `{!is_convertible From To} : bool :=
  is_convertible_value From To.

Definition IsInteroperable (T1 T2 : Type)
    `{!is_convertible T1 T2, !is_convertible T2 T1} : bool :=
  is_convertible_value T1 T2 || is_convertible_value T2 T1.

(** [std::enable_if<IsInteroperable<T1,T2>::value, Type>]: the operator with
    this return type and body [body] exists only for interoperable types. *)
Definition EnableIfInterOperable (T1 T2 : Type)
    `{!is_convertible T1 T2, !is_convertible T2 T1} {Type_ : Type}
    (body : Type_) : option Type_ :=
  if IsInteroperable T1 T2 then Some body else None.

(** ** ForwardIteratorFacade *)

Module ForwardIteratorFacade.

Section Members.
Context {T R : Type} `{!Dereference T R, !Increment T}.

(** [Reference operator*() const] *)
Definition operator_star (this : T) : R := dereference this.

(** [DerivedType& operator++()]; the reference returned is [*this]. *)
Definition operator_preinc (this : loc) : M T loc :=
  call increment this ;;; ret this.

(** [DerivedType operator++(int)] *)
Definition operator_postinc (this : loc) : M T T :=
  tmp <-- construct_copy this ;;
  operator_preinc this ;;;
  return_local tmp.

End Members.

Section Operators.
Context {T1 T2 : Type}.
Context `{!is_convertible T1 T2, !is_convertible T2 T1}.
Context `{!Equals T1 T2, !Equals T2 T1}.

(** [operator==] *)
Definition operator_eq (lhs : T1) (rhs : T2) : option bool :=
  EnableIfInterOperable T1 T2
    (if Conversion_exists T2 T1 then equals lhs rhs else equals rhs lhs).

(** [operator!=] *)
Definition operator_ne (lhs : T1) (rhs : T2) : option bool :=
  EnableIfInterOperable T1 T2
    (if Conversion_exists T2 T1 then negb (equals lhs rhs)
     else negb (equals rhs lhs)).

End Operators.

End ForwardIteratorFacade.

(** ** BidirectionalIteratorFacade *)

Module BidirectionalIteratorFacade.

Section Members.
Context {T R : Type} `{!Dereference T R, !Increment T, !Decrement T}.

(** [Reference operator*() const] *)
Definition operator_star (this : T) : R := dereference this.

(** [DerivedType& operator++()] *)
Definition operator_preinc (this : loc) : M T loc :=
  call increment this ;;; ret this.

(** [DerivedType operator++(int)] *)
Definition operator_postinc (this : loc) : M T T :=
  tmp <-- construct_copy this ;;
  operator_preinc this ;;;
  return_local tmp.

(** [DerivedType& operator--()] *)
Definition operator_predec (this : loc) : M T loc :=
  call decrement this ;;; ret this.

(** [DerivedType operator--(int)] *)
Definition operator_postdec (this : loc) : M T T :=
  tmp <-- construct_copy this ;;
  operator_predec this ;;;
  return_local tmp.

End Members.

Section Operators.
Context {T1 T2 : Type}.
Context `{!is_convertible T1 T2, !is_convertible T2 T1}.
Context `{!Equals T1 T2, !Equals T2 T1}.

(** [operator==] *)
Definition operator_eq (lhs : T1) (rhs : T2) : option bool :=
  EnableIfInterOperable T1 T2
    (if Conversion_exists T2 T1 then equals lhs rhs else equals rhs lhs).

(** [operator!=] *)
Definition operator_ne (lhs : T1) (rhs : T2) : option bool :=
  EnableIfInterOperable T1 T2
    (if Conversion_exists T2 T1 then negb (equals lhs rhs)
     else negb (equals rhs lhs)).

End Operators.

End BidirectionalIteratorFacade.

(** ** RandomAccessIteratorFacade *)

Module RandomAccessIteratorFacade.

Section Members.
Context {T R : Type}.
Context `{!Dereference T R, !Increment T, !Decrement T}.
Context `{!ElementAt T R, !Advance T}.

(** [Reference operator*() const] *)
Definition operator_star (this : T) : R := dereference this.

(** [Reference operator[](DifferenceType n) const] *)
Definition operator_index (this : T) (n : DifferenceType) : R :=
  elementAt this n.

(** [DerivedType& operator++()] *)
Definition operator_preinc (this : loc) : M T loc :=
  call increment this ;;; ret this.

(** [DerivedType operator++(int)] *)
Definition operator_postinc (this : loc) : M T T :=
  tmp <-- construct_copy this ;;
  operator_preinc this ;;;
  return_local tmp.

(** [DerivedType& operator+=(DifferenceType n)] *)
Definition operator_plus_assign (this : loc) (n : DifferenceType) : M T loc :=
  call (λ self, advance self n) this ;;; ret this.

(** [DerivedType operator+(DifferenceType n)] *)
Definition operator_plus (this : loc) (n : DifferenceType) : M T T :=
  tmp <-- construct_copy this ;;
  call (λ self, advance self n) tmp ;;;
  return_local tmp.

(** [DerivedType& operator--()] *)
Definition operator_predec (this : loc) : M T loc :=
  call decrement this ;;; ret this.

(** [DerivedType operator--(int)] *)
Definition operator_postdec (this : loc) : M T T :=
  tmp <-- construct_copy this ;;
  operator_predec this ;;;
  return_local tmp.

(** [DerivedType& operator-=(DifferenceType n)] *)
Definition operator_minus_assign (this : loc) (n : DifferenceType) : M T loc :=
  call (λ self, advance self (- n)) this ;;; ret this.

(** [DerivedType operator-(DifferenceType n)] *)
Definition operator_minus (this : loc) (n : DifferenceType) : M T T :=
  tmp <-- construct_copy this ;;
  call (λ self, advance self (- n)) tmp ;;;
  return_local tmp.

End Members.

Section Operators.
Context {T1 T2 : Type}.
Context `{!is_convertible T1 T2, !is_convertible T2 T1}.
Context `{!Equals T1 T2, !Equals T2 T1}.
Context `{!DistanceTo T1 T2, !DistanceTo T2 T1}.

(** [operator==] *)
Definition operator_eq (lhs : T1) (rhs : T2) : option bool :=
  EnableIfInterOperable T1 T2
    (if Conversion_exists T2 T1 then equals lhs rhs else equals rhs lhs).

(** [operator!=] *)
Definition operator_ne (lhs : T1) (rhs : T2) : option bool :=
  EnableIfInterOperable T1 T2
    (if Conversion_exists T2 T1 then negb (equals lhs rhs)
     else negb (equals rhs lhs)).

(** [operator<] *)
Definition operator_lt (lhs : T1) (rhs : T2) : option bool :=
  EnableIfInterOperable T1 T2
    (if Conversion_exists T2 T1 then distanceTo lhs rhs >? 0
     else distanceTo rhs lhs <? 0).

(** [operator<=] *)
Definition operator_le (lhs : T1) (rhs : T2) : option bool :=
  EnableIfInterOperable T1 T2
    (if Conversion_exists T2 T1 then distanceTo lhs rhs >=? 0
     else distanceTo rhs lhs <=? 0).

(** [operator>] *)
Definition operator_gt (lhs : T1) (rhs : T2) : option bool :=
  EnableIfInterOperable T1 T2
    (if Conversion_exists T2 T1 then distanceTo lhs rhs <? 0
     else distanceTo rhs lhs >? 0).

(** [operator>=] *)
Definition operator_ge (lhs : T1) (rhs : T2) : option bool :=
  EnableIfInterOperable T1 T2
    (if Conversion_exists T2 T1 then distanceTo lhs rhs <=? 0
     else distanceTo rhs lhs >=? 0).

(** [operator-] between two iterators *)
Definition operator_diff (lhs : T1) (rhs : T2) : option DifferenceType :=
  EnableIfInterOperable T1 T2
    (if Conversion_exists T2 T1 then - distanceTo lhs rhs
     else distanceTo rhs lhs).

End Operators.

End RandomAccessIteratorFacade.

(** ** Contracts of the primitives

    The facades assume that the derived class implements the primitives
    sensibly.  The laws are stated relative to the positions [valid] of the
    traversed sequence and to the offsets [within_bounds] at a position. *)

Section Contracts.
Context {T R : Type}.
Context `{!Dereference T R, !Equals T T, !Increment T, !Decrement T}.
Context `{!ElementAt T R, !Advance T, !DistanceTo T T}.

(** [equals] holds between a position and itself. *)
Definition equals_reflexive (valid : T → Prop) : Prop :=
  ∀ a, valid a → equals a a = true.

(** [decrement] undoes [increment] away from the end of the sequence. *)
Definition decrement_inverts_increment (interior : T → Prop) : Prop :=
  ∀ a, interior a → decrement (increment a) = a.

(** An offset within bounds leads to a position of the sequence. *)
Definition advance_stays_valid
    (valid : T → Prop) (within_bounds : T → DifferenceType → Prop) : Prop :=
  ∀ a n, valid a → within_bounds a n → valid (advance a n).

(** [a.advance(d); a.equals(other)] iff [d == a0.distanceTo(other)]. *)
Definition advance_consistent
    (valid : T → Prop) (within_bounds : T → DifferenceType → Prop) : Prop :=
  ∀ a0 d other, valid a0 → within_bounds a0 d → valid other →
    equals (advance a0 d) other = true ↔ d = distanceTo a0 other.

(** [elementAt(n)] is the element reached by [advance(n)]. *)
Definition elementAt_consistent
    (within_bounds : T → DifferenceType → Prop) : Prop :=
  ∀ a n, within_bounds a n → elementAt a n = dereference (advance a n).

End Contracts.

(** [a.distanceTo(b) == -b.distanceTo(a)] *)
Definition distanceTo_antisymmetric {T1 T2 : Type}
    `{!DistanceTo T1 T2, !DistanceTo T2 T1}
    (valid1 : T1 → Prop) (valid2 : T2 → Prop) : Prop :=
  ∀ a b, valid1 a → valid2 b → distanceTo a b = - distanceTo b a.

(** ** [math.hh] *)

(** [template <class T> int sign(const T& val)], at a signed integer [T]. *)
Definition sign (val : Z) : Z := if val <? 0 then -1 else 1.

(** ** The test iterator of the documentation in [iteratorfacades.hh]

    [TestIterator<C,T>] walks over the array [values_] of a container by
    index.  The two variants of the class ([C] and [T] both mutable or both
    [const]) are told apart by a tag. *)

Module IteratorFacadeTest.

Inductive constness := Mutable | Constant.

(** [C *container_; size_t position_;] with the container given by its
    address. *)
Record TestIterator (q : constness) := mkTestIterator {
  container_ : nat;
  position_ : Z
}.
Arguments mkTestIterator q container_ position_ : assert.
Arguments container_ {q} _.
Arguments position_ {q} _.

(** [T&]: the element [values_[ref_index]] of the container at
    [ref_container]. *)
Record Reference := mkReference {
  ref_container : nat;
  ref_index : Z
}.

(** Arithmetic of [size_t] (64 bits) wraps around. *)
Definition size_t_wrap (z : Z) : Z := z mod 18446744073709551616.

(** Conversion of a [size_t] to the result type [std::ptrdiff_t]. *)
Definition to_ptrdiff_t (u : Z) : Z :=
  if u <? 9223372036854775808 then u else u - 18446744073709551616.

(** [TestIterator(C& cont, int pos)] *)
Definition make (q : constness) (cont : nat) (pos : Z) : TestIterator q :=
  mkTestIterator q cont (size_t_wrap pos).

(** [TestIterator(const TestIterator<..>& other)]: the converting
    constructors. *)
Definition convert {q : constness} (q' : constness) (other : TestIterator q)
    : TestIterator q' :=
  mkTestIterator q' (container_ other) (position_ other).

#[global] Instance test_equals q q' : Equals (TestIterator q) (TestIterator q') :=
  λ this other,
    (position_ this =? position_ other) &&
    (container_ this =? container_ other)%nat.

#[global] Instance test_dereference q : Dereference (TestIterator q) Reference :=
  λ this, mkReference (container_ this) (position_ this).

#[global] Instance test_increment q : Increment (TestIterator q) :=
  λ this, mkTestIterator q (container_ this) (size_t_wrap (position_ this + 1)).

#[global] Instance test_decrement q : Decrement (TestIterator q) :=
  λ this, mkTestIterator q (container_ this) (size_t_wrap (position_ this - 1)).

(** [container_->operator[](position_+i)], the container's [operator[]]
    indexing [values_]. *)
#[global] Instance test_elementAt q : ElementAt (TestIterator q) Reference :=
  λ this i, mkReference (container_ this) (size_t_wrap (position_ this + i)).

#[global] Instance test_advance q : Advance (TestIterator q) :=
  λ this n, mkTestIterator q (container_ this) (size_t_wrap (position_ this + n)).

(** The [assert] on the containers is a debugging aid and not part of the
    value computed. *)
#[global] Instance test_distanceTo q q'
    : DistanceTo (TestIterator q) (TestIterator q') :=
  λ this other, to_ptrdiff_t (size_t_wrap (position_ other - position_ this)).

(** Both variants declare a constructor from either variant. *)
Definition convertible_both_ways q q'
    : is_convertible (TestIterator q) (TestIterator q') := true.

(** The conversions of a const-correct pair, where the mutable variant has
    no constructor from the constant one. *)
Definition convertible_to_const q q'
    : is_convertible (TestIterator q) (TestIterator q') :=
  match q, q' with
  | Constant, Mutable => false
  | _, _ => true
  end.

(** Positions of a sequence of [len] elements stored in the container at
    [cont], the position past the end included. *)
Definition in_range (cont : nat) (len : Z) {q} (it : TestIterator q) : Prop :=
  container_ it = cont ∧ 0 ≤ position_ it ≤ len.

(** Positions that have a successor in the sequence. *)
Definition before_end (cont : nat) (len : Z) {q} (it : TestIterator q) : Prop :=
  container_ it = cont ∧ 0 ≤ position_ it < len.

(** Offsets that stay inside the sequence. *)
Definition offset_in_range (len : Z) {q} (it : TestIterator q)
    (n : DifferenceType) : Prop :=
  0 ≤ position_ it + n ≤ len.

(** Reading an element from a memory of containers. *)
Definition read (mem : gmap nat (list Z)) (r : Reference) : option Z :=
  match mem !! ref_container r with
  | Some values_ => values_ !! Z.to_nat (ref_index r)
  | None => None
  end.

(** A container of five integers at address 1, and an iterator object at
    address 0 of the object store. *)
Definition five : gmap nat (list Z) := {[ 1%nat := [10; 20; 30; 40; 50] ]}.

Definition begin_ (q : constness) : TestIterator q := make q 1 0.

Definition end_ (q : constness) : TestIterator q := make q 1 5.

Definition at_ (q : constness) (pos : Z) : TestIterator q := make q 1 pos.

Definition object_at_0 (q : constness) (it : TestIterator q)
    : gmap loc (TestIterator q) :=
  {[ 0%nat := it ]}.

End IteratorFacadeTest.

(** ** [math.hh]: power, factorial, binomial, conjugateComplex

    The function templates are read at a signed integer type, with the
    convention on overflow stated at the top. *)

(** [for (i = first; i < last; ++i) acc = body(acc, i);], the counting loop
    of [power], [factorial] and [binomial]; its body does not assign to the
    counter. *)
Definition for_range {A : Type} (first last : Z) (body : A → Z → A) (init : A)
    : A :=
  foldl body init (seqZ first (last - first)).

(** [constexpr Mantissa power(Mantissa m, Exponent p)] at an integer
    [Mantissa]: [Mantissa(1)/result] is the truncating division, and a
    division by zero is undefined ([None]). *)
Definition power (m p : Z) : option Z :=
  let result := 1 in
  let absp := if p <? 0 then - p else p in
  let result := for_range 0 absp (λ result _, result * m) result in
  if p <? 0 then
    if result =? 0 then None else Some (1 ÷ result)
  else Some result.

(** [template <int m> struct Factorial] with its specialization
    [Factorial<0>]; the recursion of the primary template ends only for
    [m >= 0]. *)
Fixpoint Factorial (m : nat) : Z :=
  match m with
  | O => 1
  | S m' => Z.of_nat m * Factorial m'
  end.

(** [constexpr T factorial(const T& n)] *)
Definition factorial (n : Z) : Z :=
  for_range 0 n (λ fac k, fac * (k + 1)) 1.

#[local] Set Warnings "-funind-cannot-define-graph".
#[local] Set Warnings "-funind-cannot-build-inversion".

(** [constexpr T binomial(const T& n, const T& k)]; the recursive call is
    made with a smaller [k]. *)
Function binomial (n k : Z) {measure Z.to_nat k} : Z :=
  if (k <? 0) || (k >? n) then 0
  else if 2 * k >? n then binomial n (n - k)
  else for_range (n - k) n (λ bin i, bin * (i + 1)) 1 ÷ factorial k.
Proof.
  intros n k Hrange Hupper.
  apply orb_false_iff in Hrange as [Hk Hn].
  apply Z.ltb_ge in Hk. rewrite Z.gtb_ltb in Hn, Hupper.
  apply Z.ltb_ge in Hn. apply Z.ltb_lt in Hupper. lia.
Defined.

(** [binomial(std::integral_constant<T,n>, std::integral_constant<T,n>)],
    the overload for equal arguments. *)
Definition binomial_equal_arguments (n : Z) : Z :=
  if n >=? 0 then 1 else 0.

(** Unary minus of the component type of [std::complex<K>]. *)
Class Negate (K : Type) := negate : K → K.

(** [std::complex<K>] with its accessors [real()] and [imag()]. *)
Record complex (K : Type) := mkComplex {
  real : K;
  imag : K
}.
Arguments mkComplex {K} real imag.
Arguments real {K} c.
Arguments imag {K} c.

(** [K conjugateComplex(const K& x)], the overload for a non-complex type. *)
Definition conjugateComplex {K : Type} (x : K) : K := x.

(** [std::complex<K> conjugateComplex(const std::complex<K>& c)] *)
Definition conjugateComplex_complex {K : Type} `{!Negate K} (c : complex K)
    : complex K :=
  mkComplex (real c) (negate (imag c)).

#[global] Instance Z_negate : Negate Z := Z.opp.

(** * Properties *)

Import IteratorFacadeTest.

(** ** The object store *)

Section StoreLemmas.
Context {T : Type}.
Implicit Types (σ : gmap loc T) (l this : loc).

Lemma fresh_ne σ this a : σ !! this = Some a → fresh (dom σ) ≠ this.
Proof.
  intros Hthis Heq.
  assert (this ∈ dom σ) as Hin by (apply elem_of_dom; eauto).
  rewrite <- Heq in Hin. by apply is_fresh in Hin.
Qed.

Lemma fresh_None σ : σ !! fresh (dom σ) = None.
Proof. apply not_elem_of_dom, is_fresh. Qed.

Lemma call_run (f : T → T) σ l a :
  σ !! l = Some a → call f l σ = Some (tt, <[l := f a]> σ).
Proof. intros H. unfold call. by rewrite H. Qed.

Lemma construct_copy_run σ l a :
  σ !! l = Some a →
  construct_copy l σ = Some (fresh (dom σ), <[fresh (dom σ) := a]> σ).
Proof. intros H. unfold construct_copy. by rewrite H. Qed.

Lemma return_local_run σ l a :
  σ !! l = Some a → return_local l σ = Some (a, delete l σ).
Proof.
  intros H. unfold return_local, bind, load, destroy, ret. by rewrite H.
Qed.

(** A temporary that is created, possibly assigned to and then destroyed
    leaves no trace in the store. *)
Lemma delete_fresh_insert σ (v : T) :
  delete (fresh (dom σ)) (<[fresh (dom σ) := v]> σ) = σ.
Proof. rewrite delete_insert_eq. apply delete_id, fresh_None. Qed.

(** A member function that calls a primitive on [*this] and returns
    [*this]. *)
Lemma call_then_ret (f : T → T) σ this a :
  σ !! this = Some a →
  (call f this ;;; ret this) σ = Some (this, <[this := f a]> σ).
Proof. intros H. unfold bind, ret. by rewrite (call_run _ _ _ _ H). Qed.

(** A member function that copies [*this], calls a primitive on the copy
    and returns the copy: the result is the primitive applied to the state
    of [*this], and the store is the one before the call. *)
Lemma copy_call_return (f : T → T) σ this a :
  σ !! this = Some a →
  (tmp <-- construct_copy this ;; call f tmp ;;; return_local tmp) σ
  = Some (f a, σ).
Proof.
  intros Hthis. unfold bind at 1.
  rewrite (construct_copy_run _ _ _ Hthis).
  unfold bind. rewrite (call_run f _ _ a) by apply lookup_insert_eq.
  rewrite insert_insert_eq.
  rewrite (return_local_run _ _ (f a)) by apply lookup_insert_eq.
  by rewrite delete_fresh_insert.
Qed.

(** A member function that copies [*this], calls a primitive on [*this]
    itself and returns the copy: the result is the old state, and the
    primitive has been applied to [*this]. *)
Lemma copy_step_return (step : loc → M T loc) (f : T → T) σ this a :
  (∀ σ0, σ0 !! this = Some a →
         step this σ0 = Some (this, <[this := f a]> σ0)) →
  σ !! this = Some a →
  (tmp <-- construct_copy this ;; step this ;;; return_local tmp) σ
  = Some (a, <[this := f a]> σ).
Proof.
  intros Hstep Hthis. pose proof (fresh_ne _ _ _ Hthis) as Hne.
  unfold bind at 1. rewrite (construct_copy_run _ _ _ Hthis).
  unfold bind. rewrite Hstep by (by rewrite lookup_insert_ne).
  rewrite (return_local_run _ _ a).
  - rewrite delete_insert_ne by done. by rewrite delete_fresh_insert.
  - rewrite lookup_insert_ne by done. apply lookup_insert_eq.
Qed.

End StoreLemmas.

(** ** Forward tier *)

(** C4: post-increment on a forward iterator returns the state the iterator
    had before the call, so the returned copy dereferences to the element the
    iterator pointed to; the iterator itself has been stepped exactly once by
    the [increment] primitive, and no other object has changed. *)
Theorem forward_postinc_returns_old_state
    {T R : Type} `{!Dereference T R, !Increment T}
    (σ : gmap loc T) (this : loc) (it : T) :
  σ !! this = Some it →
  ∃ copy σ',
    ForwardIteratorFacade.operator_postinc this σ = Some (copy, σ') ∧
    copy = it ∧
    ForwardIteratorFacade.operator_star copy = dereference it ∧
    σ' !! this = Some (increment it) ∧
    σ' = <[this := increment it]> σ.
Proof.
  intros Hthis. exists it, (<[this := increment it]> σ).
  split; [|by rewrite lookup_insert_eq].
  apply copy_step_return; [|done].
  intros σ0 H0. by apply call_then_ret.
Qed.

Lemma forward_postinc_returns_old_state_witness :
  object_at_0 Mutable (begin_ Mutable) !! 0%nat = Some (begin_ Mutable) ∧
  ∃ copy σ',
    ForwardIteratorFacade.operator_postinc 0%nat
      (object_at_0 Mutable (begin_ Mutable)) = Some (copy, σ') ∧
    copy = begin_ Mutable ∧
    ForwardIteratorFacade.operator_star copy = dereference (begin_ Mutable) ∧
    σ' !! 0%nat = Some (increment (begin_ Mutable)) ∧
    σ' = <[0%nat := increment (begin_ Mutable)]>
           (object_at_0 Mutable (begin_ Mutable)).
Proof.
  split; [reflexivity|].
  apply (forward_postinc_returns_old_state (R := Reference)).
  reflexivity.
Defined.

(** ** Bidirectional tier *)

(** C8: on a bidirectional iterator that is not at the boundary of its
    sequence, and whose [decrement] undoes [increment], pre-increment
    followed by pre-decrement leaves the iterator at a position that the
    [equals] primitive identifies with the original one. *)
Theorem bidirectional_inc_dec_round_trip
    {T : Type} `{!Equals T T, !Increment T, !Decrement T}
    (interior : T → Prop) (σ : gmap loc T) (this : loc) (it : T) :
  decrement_inverts_increment interior →
  equals_reflexive interior →
  interior it →
  σ !! this = Some it →
  ∃ it' σ',
    (BidirectionalIteratorFacade.operator_preinc this ;;;
     BidirectionalIteratorFacade.operator_predec this) σ = Some (this, σ') ∧
    σ' !! this = Some it' ∧
    it' = decrement (increment it) ∧
    equals it' it = true.
Proof.
  intros Hinv Hrefl Hint Hthis.
  exists (decrement (increment it)),
         (<[this := decrement (increment it)]> σ).
  repeat split.
  - unfold bind at 1, BidirectionalIteratorFacade.operator_preinc.
    rewrite (call_then_ret _ _ _ _ Hthis).
    unfold BidirectionalIteratorFacade.operator_predec.
    rewrite (call_then_ret _ _ _ (increment it)) by apply lookup_insert_eq.
    by rewrite insert_insert_eq.
  - apply lookup_insert_eq.
  - rewrite Hinv by done. by apply Hrefl.
Qed.

(** ** RandomAccess tier: members *)

Section RandomAccessMembers.
Context {T R : Type}.
Context `{!Dereference T R, !ElementAt T R, !Advance T}.
Implicit Types (σ : gmap loc T) (this : loc) (a : T) (n : DifferenceType).

Lemma operator_plus_run σ this a n :
  σ !! this = Some a →
  RandomAccessIteratorFacade.operator_plus this n σ = Some (advance a n, σ).
Proof.
  intros H. unfold RandomAccessIteratorFacade.operator_plus.
  by rewrite (copy_call_return _ _ _ _ H).
Qed.

Lemma operator_minus_run σ this a n :
  σ !! this = Some a →
  RandomAccessIteratorFacade.operator_minus this n σ
  = Some (advance a (- n), σ).
Proof.
  intros H. unfold RandomAccessIteratorFacade.operator_minus.
  by rewrite (copy_call_return _ _ _ _ H).
Qed.

End RandomAccessMembers.

(** C9: [a + n] and [a - n] leave [a] as it was, whatever the [advance]
    primitive of the derived class does to the object it is called on: the
    primitive runs on a fresh copy, the result is that copy advanced by [n]
    (by [-n]), and the store after the call is the store before it. *)
Theorem random_access_plus_minus_frame
    {T : Type} `{!Advance T}
    (σ : gmap loc T) (this : loc) (a : T) (n : DifferenceType) :
  σ !! this = Some a →
  (∃ sum σ',
     RandomAccessIteratorFacade.operator_plus this n σ = Some (sum, σ') ∧
     sum = advance a n ∧ σ' !! this = Some a ∧ σ' = σ) ∧
  (∃ diff σ',
     RandomAccessIteratorFacade.operator_minus this n σ = Some (diff, σ') ∧
     diff = advance a (- n) ∧ σ' !! this = Some a ∧ σ' = σ).
Proof.
  intros Hthis. split.
  - exists (advance a n), σ. by rewrite (operator_plus_run _ _ _ _ Hthis).
  - exists (advance a (- n)), σ. by rewrite (operator_minus_run _ _ _ _ Hthis).
Qed.

(** C7: [a[n]] is the element [*(a + n)], for a derived class whose
    [elementAt] agrees with [advance] followed by [dereference] on offsets
    within bounds. *)
Theorem random_access_index_is_star_of_plus
    {T R : Type} `{!Dereference T R, !ElementAt T R, !Advance T}
    (within_bounds : T → DifferenceType → Prop)
    (σ : gmap loc T) (this : loc) (a : T) (n : DifferenceType) :
  elementAt_consistent within_bounds →
  within_bounds a n →
  σ !! this = Some a →
  ∃ sum σ',
    RandomAccessIteratorFacade.operator_plus this n σ = Some (sum, σ') ∧
    RandomAccessIteratorFacade.operator_index a n
    = RandomAccessIteratorFacade.operator_star sum.
Proof.
  intros Hcons Hn Hthis. exists (advance a n), σ. split.
  - by apply operator_plus_run.
  - unfold RandomAccessIteratorFacade.operator_index,
      RandomAccessIteratorFacade.operator_star.
    by apply Hcons.
Qed.

(** ** The interoperability resolver *)

Section Resolver.
Context {T1 T2 : Type}.
Context `{!is_convertible T1 T2, !is_convertible T2 T1}.

(** The operator exists for an interoperable pair and evaluates its body. *)
Lemma EnableIfInterOperable_Some {A : Type} (body : A) :
  IsInteroperable T1 T2 = true →
  EnableIfInterOperable T1 T2 body = Some body.
Proof. intros H. unfold EnableIfInterOperable. by rewrite H. Qed.

(** When both conversions exist the pair is interoperable. *)
Lemma both_convertible_interoperable :
  is_convertible_value T1 T2 = true →
  is_convertible_value T2 T1 = true →
  IsInteroperable T1 T2 = true.
Proof. intros H12 H21. unfold IsInteroperable. by rewrite H12. Qed.

End Resolver.

Create HintDb facade_ops.
#[global] Hint Unfold
  ForwardIteratorFacade.operator_eq ForwardIteratorFacade.operator_ne
  BidirectionalIteratorFacade.operator_eq BidirectionalIteratorFacade.operator_ne
  RandomAccessIteratorFacade.operator_eq RandomAccessIteratorFacade.operator_ne
  RandomAccessIteratorFacade.operator_lt RandomAccessIteratorFacade.operator_le
  RandomAccessIteratorFacade.operator_gt RandomAccessIteratorFacade.operator_ge
  RandomAccessIteratorFacade.operator_diff : facade_ops.

(** Unfolds a free operator of an interoperable pair down to the branch on
    [Conversion_exists]. *)
Ltac enter_operator Hinter :=
  autounfold with facade_ops;
  rewrite ?(EnableIfInterOperable_Some _ Hinter);
  unfold Conversion_exists.

(** C1: for an interoperable pair of random-access iterators whose
    [distanceTo] primitives are antisymmetric, [lhs < rhs] is defined and is
    true iff [lhs.distanceTo(rhs) > 0], whichever of the two primitives the
    resolver calls. *)
Theorem random_access_lt_sign_convention
    {T1 T2 : Type} `{!is_convertible T1 T2, !is_convertible T2 T1}
    `{!DistanceTo T1 T2, !DistanceTo T2 T1}
    (valid1 : T1 → Prop) (valid2 : T2 → Prop) (lhs : T1) (rhs : T2) :
  distanceTo_antisymmetric valid1 valid2 →
  valid1 lhs → valid2 rhs →
  IsInteroperable T1 T2 = true →
  ∃ b, RandomAccessIteratorFacade.operator_lt lhs rhs = Some b ∧
       (b = true ↔ distanceTo lhs rhs > 0).
Proof.
  intros Hanti H1 H2 Hinter.
  specialize (Hanti lhs rhs H1 H2).
  enter_operator Hinter.
  destruct (is_convertible_value T2 T1); eexists; (split; [reflexivity|]).
  - rewrite Z.gtb_ltb, Z.ltb_lt. lia.
  - rewrite Z.ltb_lt. lia.
Qed.

(** C2: for an interoperable pair of random-access iterators whose
    [distanceTo] primitives are antisymmetric, [lhs - rhs] is defined and
    equals the negation of [lhs.distanceTo(rhs)], whichever of the two
    primitives the resolver calls. *)
Theorem random_access_diff_is_negated_distance
    {T1 T2 : Type} `{!is_convertible T1 T2, !is_convertible T2 T1}
    `{!DistanceTo T1 T2, !DistanceTo T2 T1}
    (valid1 : T1 → Prop) (valid2 : T2 → Prop) (lhs : T1) (rhs : T2) :
  distanceTo_antisymmetric valid1 valid2 →
  valid1 lhs → valid2 rhs →
  IsInteroperable T1 T2 = true →
  RandomAccessIteratorFacade.operator_diff lhs rhs
  = Some (- distanceTo lhs rhs).
Proof.
  intros Hanti H1 H2 Hinter.
  specialize (Hanti lhs rhs H1 H2).
  enter_operator Hinter.
  destruct (is_convertible_value T2 T1); f_equal; lia.
Qed.

(** C3: when each of the two iterator types converts to the other, every
    free operator of every tier is defined and calls the primitive of its
    left operand: [==] and [!=] are [lhs.equals(rhs)] and its negation, the
    orderings compare [lhs.distanceTo(rhs)] with zero and [-] negates it. *)
Theorem ambiguous_pair_uses_left_primitive
    {T1 T2 : Type} `{!is_convertible T1 T2, !is_convertible T2 T1}
    `{!Equals T1 T2, !Equals T2 T1} `{!DistanceTo T1 T2, !DistanceTo T2 T1}
    (lhs : T1) (rhs : T2) :
  is_convertible_value T1 T2 = true →
  is_convertible_value T2 T1 = true →
  ForwardIteratorFacade.operator_eq lhs rhs = Some (equals lhs rhs) ∧
  ForwardIteratorFacade.operator_ne lhs rhs = Some (negb (equals lhs rhs)) ∧
  BidirectionalIteratorFacade.operator_eq lhs rhs = Some (equals lhs rhs) ∧
  BidirectionalIteratorFacade.operator_ne lhs rhs
  = Some (negb (equals lhs rhs)) ∧
  RandomAccessIteratorFacade.operator_eq lhs rhs = Some (equals lhs rhs) ∧
  RandomAccessIteratorFacade.operator_ne lhs rhs
  = Some (negb (equals lhs rhs)) ∧
  RandomAccessIteratorFacade.operator_lt lhs rhs
  = Some (distanceTo lhs rhs >? 0) ∧
  RandomAccessIteratorFacade.operator_le lhs rhs
  = Some (distanceTo lhs rhs >=? 0) ∧
  RandomAccessIteratorFacade.operator_gt lhs rhs
  = Some (distanceTo lhs rhs <? 0) ∧
  RandomAccessIteratorFacade.operator_ge lhs rhs
  = Some (distanceTo lhs rhs <=? 0) ∧
  RandomAccessIteratorFacade.operator_diff lhs rhs
  = Some (- distanceTo lhs rhs).
Proof.
  intros H12 H21.
  pose proof (both_convertible_interoperable H12 H21) as Hinter.
  enter_operator Hinter. rewrite H21. repeat split.
Qed.

(** C5: for a mutable iterator type that converts to its constant
    counterpart, but not the other way round, [m == c] and [c == m] are both
    defined and both are the one call [c.equals(m)], in the forward and in
    the random-access tier; so they agree, and they are true whenever
    [equals] recognises that [c] and [m] denote the same position. *)
Theorem mutable_constant_equality_agrees
    {Mut Const : Type} `{!is_convertible Mut Const, !is_convertible Const Mut}
    `{!Equals Mut Const, !Equals Const Mut}
    (same_position : Const → Mut → Prop) (m : Mut) (c : Const) :
  is_convertible_value Mut Const = true →
  is_convertible_value Const Mut = false →
  (∀ c0 m0, same_position c0 m0 → equals c0 m0 = true) →
  (ForwardIteratorFacade.operator_eq m c = Some (equals c m) ∧
   ForwardIteratorFacade.operator_eq c m = Some (equals c m) ∧
   RandomAccessIteratorFacade.operator_eq m c = Some (equals c m) ∧
   RandomAccessIteratorFacade.operator_eq c m = Some (equals c m)) ∧
  (same_position c m →
   ForwardIteratorFacade.operator_eq m c = Some true ∧
   ForwardIteratorFacade.operator_eq c m = Some true ∧
   RandomAccessIteratorFacade.operator_eq m c = Some true ∧
   RandomAccessIteratorFacade.operator_eq c m = Some true).
Proof.
  intros Hmc Hcm Hequals.
  assert (IsInteroperable Mut Const = true) as Hinter1
    by (unfold IsInteroperable; by rewrite Hmc).
  assert (IsInteroperable Const Mut = true) as Hinter2
    by (unfold IsInteroperable; rewrite Hmc; apply orb_true_r).
  assert (ForwardIteratorFacade.operator_eq m c = Some (equals c m) ∧
          ForwardIteratorFacade.operator_eq c m = Some (equals c m) ∧
          RandomAccessIteratorFacade.operator_eq m c = Some (equals c m) ∧
          RandomAccessIteratorFacade.operator_eq c m = Some (equals c m))
    as Hsame.
  { autounfold with facade_ops.
    rewrite (EnableIfInterOperable_Some _ Hinter1).
    rewrite (EnableIfInterOperable_Some _ Hinter2).
    unfold Conversion_exists. rewrite Hmc, Hcm. repeat split. }
  split; [exact Hsame|].
  intros Hpos. destruct Hsame as (-> & -> & -> & ->).
  rewrite (Hequals _ _ Hpos). repeat split.
Qed.

(** C6: for a random-access iterator at a position [a] of its sequence and
    an offset [n] within bounds, [(a + n) - a] is defined and equals [n],
    and [a] has not moved.  The derived class is assumed to keep offsets
    within bounds inside the sequence, to have a reflexive [equals], and to
    satisfy the consistency of [advance] with [distanceTo] and the
    antisymmetry of [distanceTo]. *)
Theorem random_access_plus_then_diff
    {T : Type} `{!is_convertible T T}
    `{!Equals T T, !Advance T, !DistanceTo T T}
    (valid : T → Prop) (within_bounds : T → DifferenceType → Prop)
    (σ : gmap loc T) (this : loc) (a : T) (n : DifferenceType) :
  advance_stays_valid valid within_bounds →
  equals_reflexive valid →
  advance_consistent valid within_bounds →
  distanceTo_antisymmetric valid valid →
  IsInteroperable T T = true →
  valid a → within_bounds a n →
  σ !! this = Some a →
  ∃ sum σ',
    RandomAccessIteratorFacade.operator_plus this n σ = Some (sum, σ') ∧
    σ' !! this = Some a ∧
    RandomAccessIteratorFacade.operator_diff sum a = Some n.
Proof.
  intros Hstay Hrefl Hcons Hanti Hinter Ha Hn Hthis.
  exists (advance a n), σ.
  split; [by apply operator_plus_run|]. split; [done|].
  pose proof (Hstay a n Ha Hn) as Hsum.
  assert (n = distanceTo a (advance a n)) as Hdist
    by (apply (Hcons a n (advance a n) Ha Hn Hsum); by apply Hrefl).
  pose proof (Hanti (advance a n) a Hsum Ha) as Hneg.
  enter_operator Hinter.
  destruct (is_convertible_value T T); f_equal; lia.
Qed.

(** ** [math.hh] *)

(** C10: [sign] never returns 0: it is -1 on negative values and 1 on all
    others, and in particular [sign(0)] is 1. *)
Theorem sign_zero_is_one :
  sign 0 = 1 ∧
  ∀ val, (val < 0 ∧ sign val = -1) ∨ (0 ≤ val ∧ sign val = 1).
Proof.
  split; [reflexivity|].
  intros val. unfold sign. destruct (Z.ltb_spec val 0); [left|right]; done.
Qed.

(** ** The test iterator satisfies the contracts *)

Section TestIteratorContracts.
Context (cont : nat) (len : Z) (q q' : constness).
Hypothesis len_small : 0 ≤ len < 9223372036854775808.

(** Unfolds the primitives of [TestIterator] and the wrap-around. *)
Ltac unfold_primitives :=
  unfold equals, test_equals, increment, test_increment, decrement,
    test_decrement, advance, test_advance, distanceTo, test_distanceTo,
    elementAt, test_elementAt, dereference, test_dereference,
    in_range, before_end, offset_in_range, to_ptrdiff_t, size_t_wrap in *;
  simpl in *.

Lemma test_equals_reflexive :
  equals_reflexive (in_range cont len (q := q)).
Proof.
  intros a _. unfold_primitives. by rewrite Z.eqb_refl, Nat.eqb_refl.
Qed.

Lemma test_equals_reflexive_before_end :
  equals_reflexive (before_end cont len (q := q)).
Proof.
  intros a _. unfold_primitives. by rewrite Z.eqb_refl, Nat.eqb_refl.
Qed.

Lemma test_decrement_inverts_increment :
  decrement_inverts_increment (before_end cont len (q := q)).
Proof.
  intros [c p] [_ Hp]. unfold_primitives. f_equal.
  Z.div_mod_to_equations. lia.
Qed.

Lemma test_advance_stays_valid :
  advance_stays_valid (in_range cont len (q := q)) (offset_in_range len).
Proof.
  intros [c p] n [Hc Hp] Hn. unfold_primitives. split; [done|].
  Z.div_mod_to_equations. lia.
Qed.

Lemma test_advance_consistent :
  advance_consistent (in_range cont len (q := q)) (offset_in_range len).
Proof.
  intros [c p] d [c' p'] [Hc Hp] Hd [Hc' Hp']. unfold_primitives. subst c c'.
  rewrite Nat.eqb_refl, andb_true_r, Z.eqb_eq.
  destruct (Z.ltb_spec ((p' - p) mod 18446744073709551616)
              9223372036854775808);
    Z.div_mod_to_equations; lia.
Qed.

Lemma test_distanceTo_antisymmetric :
  distanceTo_antisymmetric
    (in_range cont len (q := q)) (in_range cont len (q := q')).
Proof.
  intros [c p] [c' p'] [Hc Hp] [Hc' Hp']. unfold_primitives.
  destruct (Z.ltb_spec ((p' - p) mod 18446744073709551616)
              9223372036854775808),
           (Z.ltb_spec ((p - p') mod 18446744073709551616)
              9223372036854775808);
    Z.div_mod_to_equations; lia.
Qed.

Lemma test_elementAt_consistent :
  elementAt_consistent (offset_in_range len (q := q)).
Proof. intros a n _. reflexivity. Qed.

End TestIteratorContracts.

Lemma five_is_small : 0 ≤ 5 < 9223372036854775808.
Proof. lia. Qed.

(** ** The laws at work on the test iterator *)

Lemma bidirectional_inc_dec_round_trip_witness :
  decrement_inverts_increment (before_end 1 5 (q := Mutable)) ∧
  equals_reflexive (before_end 1 5 (q := Mutable)) ∧
  before_end 1 5 (at_ Mutable 2) ∧
  object_at_0 Mutable (at_ Mutable 2) !! 0%nat = Some (at_ Mutable 2) ∧
  ∃ it' σ',
    (BidirectionalIteratorFacade.operator_preinc 0%nat ;;;
     BidirectionalIteratorFacade.operator_predec 0%nat)
      (object_at_0 Mutable (at_ Mutable 2)) = Some (0%nat, σ') ∧
    σ' !! 0%nat = Some it' ∧
    it' = decrement (increment (at_ Mutable 2)) ∧
    equals it' (at_ Mutable 2) = true.
Proof.
  assert (before_end 1 5 (at_ Mutable 2)) as Hint
    by (split; [reflexivity | vm_compute; split; [discriminate | reflexivity]]).
  split; [apply test_decrement_inverts_increment, five_is_small|].
  split; [apply test_equals_reflexive_before_end|].
  split; [exact Hint|].
  split; [reflexivity|].
  apply (bidirectional_inc_dec_round_trip (before_end 1 5)).
  - apply test_decrement_inverts_increment, five_is_small.
  - apply test_equals_reflexive_before_end.
  - exact Hint.
  - reflexivity.
Defined.

Lemma random_access_plus_minus_frame_witness :
  object_at_0 Mutable (at_ Mutable 1) !! 0%nat = Some (at_ Mutable 1) ∧
  (∃ sum σ',
     RandomAccessIteratorFacade.operator_plus 0%nat 3
       (object_at_0 Mutable (at_ Mutable 1)) = Some (sum, σ') ∧
     sum = advance (at_ Mutable 1) 3 ∧
     σ' !! 0%nat = Some (at_ Mutable 1) ∧
     σ' = object_at_0 Mutable (at_ Mutable 1)) ∧
  (∃ diff σ',
     RandomAccessIteratorFacade.operator_minus 0%nat 3
       (object_at_0 Mutable (at_ Mutable 1)) = Some (diff, σ') ∧
     diff = advance (at_ Mutable 1) (- 3) ∧
     σ' !! 0%nat = Some (at_ Mutable 1) ∧
     σ' = object_at_0 Mutable (at_ Mutable 1)).
Proof.
  split; [reflexivity|].
  apply random_access_plus_minus_frame. reflexivity.
Defined.

Lemma random_access_index_is_star_of_plus_witness :
  elementAt_consistent (offset_in_range 5 (q := Mutable)) ∧
  offset_in_range 5 (at_ Mutable 1) 3 ∧
  object_at_0 Mutable (at_ Mutable 1) !! 0%nat = Some (at_ Mutable 1) ∧
  ∃ sum σ',
    RandomAccessIteratorFacade.operator_plus 0%nat 3
      (object_at_0 Mutable (at_ Mutable 1)) = Some (sum, σ') ∧
    RandomAccessIteratorFacade.operator_index (at_ Mutable 1) 3
    = RandomAccessIteratorFacade.operator_star sum.
Proof.
  assert (offset_in_range 5 (at_ Mutable 1) 3) as Hn
    by (vm_compute; split; discriminate).
  split; [apply test_elementAt_consistent|].
  split; [exact Hn|].
  split; [reflexivity|].
  apply (random_access_index_is_star_of_plus (offset_in_range 5)).
  - apply test_elementAt_consistent.
  - exact Hn.
  - reflexivity.
Defined.

Section ConstCorrectPair.
#[local] Existing Instance convertible_to_const.

Lemma random_access_lt_sign_convention_witness :
  distanceTo_antisymmetric
    (in_range 1 5 (q := Mutable)) (in_range 1 5 (q := Constant)) ∧
  in_range 1 5 (at_ Mutable 3) ∧
  in_range 1 5 (at_ Constant 4) ∧
  IsInteroperable (TestIterator Mutable) (TestIterator Constant) = true ∧
  ∃ b, RandomAccessIteratorFacade.operator_lt
         (at_ Mutable 3) (at_ Constant 4) = Some b ∧
       (b = true ↔ distanceTo (at_ Mutable 3) (at_ Constant 4) > 0).
Proof.
  assert (in_range 1 5 (at_ Mutable 3)) as H1
    by (split; [reflexivity | vm_compute; split; discriminate]).
  assert (in_range 1 5 (at_ Constant 4)) as H2
    by (split; [reflexivity | vm_compute; split; discriminate]).
  split; [apply test_distanceTo_antisymmetric, five_is_small|].
  split; [exact H1|]. split; [exact H2|]. split; [reflexivity|].
  apply (random_access_lt_sign_convention (in_range 1 5) (in_range 1 5)).
  - apply test_distanceTo_antisymmetric, five_is_small.
  - exact H1.
  - exact H2.
  - reflexivity.
Defined.

Lemma random_access_diff_is_negated_distance_witness :
  distanceTo_antisymmetric
    (in_range 1 5 (q := Mutable)) (in_range 1 5 (q := Constant)) ∧
  in_range 1 5 (at_ Mutable 4) ∧
  in_range 1 5 (at_ Constant 1) ∧
  IsInteroperable (TestIterator Mutable) (TestIterator Constant) = true ∧
  RandomAccessIteratorFacade.operator_diff (at_ Mutable 4) (at_ Constant 1)
  = Some (- distanceTo (at_ Mutable 4) (at_ Constant 1)).
Proof.
  assert (in_range 1 5 (at_ Mutable 4)) as H1
    by (split; [reflexivity | vm_compute; split; discriminate]).
  assert (in_range 1 5 (at_ Constant 1)) as H2
    by (split; [reflexivity | vm_compute; split; discriminate]).
  split; [apply test_distanceTo_antisymmetric, five_is_small|].
  split; [exact H1|]. split; [exact H2|]. split; [reflexivity|].
  apply (random_access_diff_is_negated_distance
           (in_range 1 5) (in_range 1 5)).
  - apply test_distanceTo_antisymmetric, five_is_small.
  - exact H1.
  - exact H2.
  - reflexivity.
Defined.

(** [c] is constructed from [m] by the converting constructor. *)
Lemma mutable_constant_equality_agrees_witness :
  is_convertible_value (TestIterator Mutable) (TestIterator Constant) = true ∧
  is_convertible_value (TestIterator Constant) (TestIterator Mutable) = false ∧
  ForwardIteratorFacade.operator_eq
    (at_ Mutable 2) (convert Constant (at_ Mutable 2)) = Some true ∧
  ForwardIteratorFacade.operator_eq
    (convert Constant (at_ Mutable 2)) (at_ Mutable 2) = Some true ∧
  RandomAccessIteratorFacade.operator_eq
    (at_ Mutable 2) (convert Constant (at_ Mutable 2)) = Some true ∧
  RandomAccessIteratorFacade.operator_eq
    (convert Constant (at_ Mutable 2)) (at_ Mutable 2) = Some true.
Proof.
  split; [reflexivity|]. split; [reflexivity|].
  refine (proj2 (mutable_constant_equality_agrees
    (λ c m, position_ c = position_ m ∧ container_ c = container_ m)
    (at_ Mutable 2) (convert Constant (at_ Mutable 2)) eq_refl eq_refl _) _).
  - intros c0 m0 [Hp Hc]. unfold equals, test_equals.
    rewrite Hp, Hc. by rewrite Z.eqb_refl, Nat.eqb_refl.
  - split; reflexivity.
Defined.

End ConstCorrectPair.

Section AmbiguousPair.
#[local] Existing Instance convertible_both_ways.

Lemma ambiguous_pair_uses_left_primitive_witness :
  is_convertible_value (TestIterator Mutable) (TestIterator Constant) = true ∧
  is_convertible_value (TestIterator Constant) (TestIterator Mutable) = true ∧
  RandomAccessIteratorFacade.operator_eq (at_ Mutable 3) (at_ Constant 4)
  = Some (equals (at_ Mutable 3) (at_ Constant 4)) ∧
  RandomAccessIteratorFacade.operator_lt (at_ Mutable 3) (at_ Constant 4)
  = Some (distanceTo (at_ Mutable 3) (at_ Constant 4) >? 0) ∧
  RandomAccessIteratorFacade.operator_diff (at_ Mutable 3) (at_ Constant 4)
  = Some (- distanceTo (at_ Mutable 3) (at_ Constant 4)).
Proof.
  split; [reflexivity|]. split; [reflexivity|].
  pose proof (ambiguous_pair_uses_left_primitive
                (at_ Mutable 3) (at_ Constant 4) eq_refl eq_refl) as H.
  repeat split; apply H.
Defined.

Lemma random_access_plus_then_diff_witness :
  advance_stays_valid (in_range 1 5 (q := Mutable)) (offset_in_range 5) ∧
  equals_reflexive (in_range 1 5 (q := Mutable)) ∧
  advance_consistent (in_range 1 5 (q := Mutable)) (offset_in_range 5) ∧
  distanceTo_antisymmetric
    (in_range 1 5 (q := Mutable)) (in_range 1 5 (q := Mutable)) ∧
  IsInteroperable (TestIterator Mutable) (TestIterator Mutable) = true ∧
  in_range 1 5 (at_ Mutable 1) ∧
  offset_in_range 5 (at_ Mutable 1) 3 ∧
  object_at_0 Mutable (at_ Mutable 1) !! 0%nat = Some (at_ Mutable 1) ∧
  ∃ sum σ',
    RandomAccessIteratorFacade.operator_plus 0%nat 3
      (object_at_0 Mutable (at_ Mutable 1)) = Some (sum, σ') ∧
    σ' !! 0%nat = Some (at_ Mutable 1) ∧
    RandomAccessIteratorFacade.operator_diff sum (at_ Mutable 1) = Some 3.
Proof.
  assert (in_range 1 5 (at_ Mutable 1)) as Ha
    by (split; [reflexivity | vm_compute; split; discriminate]).
  assert (offset_in_range 5 (at_ Mutable 1) 3) as Hn
    by (vm_compute; split; discriminate).
  split; [apply test_advance_stays_valid, five_is_small|].
  split; [apply test_equals_reflexive|].
  split; [apply test_advance_consistent, five_is_small|].
  split; [apply test_distanceTo_antisymmetric, five_is_small|].
  split; [reflexivity|]. split; [exact Ha|]. split; [exact Hn|].
  split; [reflexivity|].
  apply (random_access_plus_then_diff (in_range 1 5) (offset_in_range 5)).
  - apply test_advance_stays_valid, five_is_small.
  - apply test_equals_reflexive.
  - apply test_advance_consistent, five_is_small.
  - apply test_distanceTo_antisymmetric, five_is_small.
  - reflexivity.
  - exact Ha.
  - exact Hn.
  - reflexivity.
Defined.

End AmbiguousPair.

(** ** The facades on a container of five integers

    The operators are run on the test iterator over [10, 20, 30, 40, 50]. *)

Section FiveIntegers.
#[local] Existing Instance convertible_both_ways.

Example begin_dereferences_to_10 :
  read five (ForwardIteratorFacade.operator_star (begin_ Mutable)) = Some 10.
Proof. reflexivity. Qed.

Example two_increments_reach_30 :
  match (ForwardIteratorFacade.operator_preinc 0%nat ;;;
         ForwardIteratorFacade.operator_preinc 0%nat)
          (object_at_0 Mutable (begin_ Mutable)) with
  | Some (this, σ') =>
      match σ' !! this with
      | Some it => read five (ForwardIteratorFacade.operator_star it)
      | None => None
      end
  | None => None
  end = Some 30.
Proof. reflexivity. Qed.

Example postinc_returns_10_and_moves_to_20 :
  match ForwardIteratorFacade.operator_postinc 0%nat
          (object_at_0 Mutable (begin_ Mutable)) with
  | Some (copy, σ') =>
      match σ' !! 0%nat with
      | Some it => Some (read five (ForwardIteratorFacade.operator_star copy),
                         read five (ForwardIteratorFacade.operator_star it))
      | None => None
      end
  | None => None
  end = Some (Some 10, Some 20).
Proof. vm_compute. reflexivity. Qed.

Example end_minus_begin :
  RandomAccessIteratorFacade.operator_diff (end_ Mutable) (begin_ Mutable)
  = Some 5.
Proof. reflexivity. Qed.

Example begin_plus_3_dereferences_to_40 :
  match RandomAccessIteratorFacade.operator_plus 0%nat 3
          (object_at_0 Mutable (begin_ Mutable)) with
  | Some (sum, _) => read five (RandomAccessIteratorFacade.operator_star sum)
  | None => None
  end = Some 40.
Proof. vm_compute. reflexivity. Qed.

Example begin_index_3_is_40 :
  read five (RandomAccessIteratorFacade.operator_index (begin_ Constant) 3)
  = Some 40.
Proof. reflexivity. Qed.

Example three_before_four :
  RandomAccessIteratorFacade.operator_lt (at_ Mutable 3) (at_ Constant 4)
  = Some true.
Proof. reflexivity. Qed.

Example four_minus_one :
  RandomAccessIteratorFacade.operator_diff (at_ Constant 4) (at_ Mutable 1)
  = Some 3.
Proof. reflexivity. Qed.

Example sign_values : (sign (-7), sign 0, sign 7) = (-1, 1, 1).
Proof. reflexivity. Qed.

End FiveIntegers.

(** Without a conversion in either direction the operators do not exist. *)
Example no_operator_without_conversion
    {T1 T2 : Type} `{!is_convertible T1 T2, !is_convertible T2 T1}
    `{!Equals T1 T2, !Equals T2 T1} (lhs : T1) (rhs : T2) :
  IsInteroperable T1 T2 = false →
  ForwardIteratorFacade.operator_eq lhs rhs = None.
Proof.
  intros H. unfold ForwardIteratorFacade.operator_eq, EnableIfInterOperable.
  by rewrite H.
Qed.

(** * Further properties of the facades *)

(** ** The resolver, whatever the conversions *)

Section ResolverCases.
Context {T1 T2 : Type}.
Context `{!is_convertible T1 T2, !is_convertible T2 T1}.

Lemma EnableIfInterOperable_is_Some {A : Type} (body : A) :
  is_Some (EnableIfInterOperable T1 T2 body) ↔ IsInteroperable T1 T2 = true.
Proof.
  unfold EnableIfInterOperable. destruct (IsInteroperable T1 T2).
  - split; eauto.
  - split; [intros [? ?]; discriminate | discriminate].
Qed.

Lemma IsInteroperable_sym : IsInteroperable T1 T2 = IsInteroperable T2 T1.
Proof. unfold IsInteroperable. apply orb_comm. Qed.

End ResolverCases.

(** Case analysis on the comparisons with zero of a goal. *)
Ltac compare_with_zero :=
  rewrite ?Z.gtb_ltb, ?Z.geb_leb;
  repeat match goal with
         | |- context [?a <? ?b] => destruct (Z.ltb_spec a b)
         | |- context [?a <=? ?b] => destruct (Z.leb_spec a b)
         end;
  try done; lia.


(** X2: interoperability does not depend on the order of the two types, so
    an operator exists for [(lhs, rhs)] exactly when it exists for
    [(rhs, lhs)]. *)
Theorem interoperability_is_symmetric
    {T1 T2 : Type} `{!is_convertible T1 T2, !is_convertible T2 T1}
    `{!Equals T1 T2, !Equals T2 T1} `{!DistanceTo T1 T2, !DistanceTo T2 T1}
    (lhs : T1) (rhs : T2) :
  IsInteroperable T1 T2 = IsInteroperable T2 T1 ∧
  (is_Some (ForwardIteratorFacade.operator_eq lhs rhs)
   ↔ is_Some (ForwardIteratorFacade.operator_eq rhs lhs)) ∧
  (is_Some (RandomAccessIteratorFacade.operator_lt lhs rhs)
   ↔ is_Some (RandomAccessIteratorFacade.operator_lt rhs lhs)) ∧
  (is_Some (RandomAccessIteratorFacade.operator_diff lhs rhs)
   ↔ is_Some (RandomAccessIteratorFacade.operator_diff rhs lhs)).
Proof.
  split; [apply IsInteroperable_sym|].
  autounfold with facade_ops.
  rewrite !EnableIfInterOperable_is_Some.
  rewrite (IsInteroperable_sym (T1 := T2)). done.
Qed.

(** X3: in every tier and for every pair of types, [lhs != rhs] is the
    negation of [lhs == rhs] (and exists exactly when [==] does): both take
    the same branch of the resolver. *)
Theorem ne_is_negated_eq
    {T1 T2 : Type} `{!is_convertible T1 T2, !is_convertible T2 T1}
    `{!Equals T1 T2, !Equals T2 T1} (lhs : T1) (rhs : T2) :
  ForwardIteratorFacade.operator_ne lhs rhs
  = negb <$> ForwardIteratorFacade.operator_eq lhs rhs ∧
  BidirectionalIteratorFacade.operator_ne lhs rhs
  = negb <$> BidirectionalIteratorFacade.operator_eq lhs rhs ∧
  RandomAccessIteratorFacade.operator_ne lhs rhs
  = negb <$> RandomAccessIteratorFacade.operator_eq lhs rhs.
Proof.
  autounfold with facade_ops. unfold EnableIfInterOperable, Conversion_exists.
  destruct (IsInteroperable T1 T2), (is_convertible_value T2 T1); done.
Qed.

(** X4: whichever primitive the resolver calls, and with no assumption on
    [distanceTo], the four orderings are the comparisons of the difference
    [lhs - rhs] with zero: [<] is [lhs - rhs < 0], [<=] is [lhs - rhs <= 0],
    [>] is [lhs - rhs > 0] and [>=] is [lhs - rhs >= 0]. *)
Theorem orderings_compare_difference_with_zero
    {T1 T2 : Type} `{!is_convertible T1 T2, !is_convertible T2 T1}
    `{!DistanceTo T1 T2, !DistanceTo T2 T1} (lhs : T1) (rhs : T2) :
  RandomAccessIteratorFacade.operator_lt lhs rhs
  = (λ d, d <? 0) <$> RandomAccessIteratorFacade.operator_diff lhs rhs ∧
  RandomAccessIteratorFacade.operator_le lhs rhs
  = (λ d, d <=? 0) <$> RandomAccessIteratorFacade.operator_diff lhs rhs ∧
  RandomAccessIteratorFacade.operator_gt lhs rhs
  = (λ d, d >? 0) <$> RandomAccessIteratorFacade.operator_diff lhs rhs ∧
  RandomAccessIteratorFacade.operator_ge lhs rhs
  = (λ d, d >=? 0) <$> RandomAccessIteratorFacade.operator_diff lhs rhs.
Proof.
  autounfold with facade_ops. unfold EnableIfInterOperable, Conversion_exists.
  destruct (IsInteroperable T1 T2), (is_convertible_value T2 T1); simpl;
    repeat split; try done; f_equal; compare_with_zero.
Qed.

(** X5: for iterators whose [distanceTo] primitives are antisymmetric,
    swapping the operands flips the orderings and negates the difference:
    [lhs > rhs] is [rhs < lhs], [lhs >= rhs] is [rhs <= lhs] and
    [lhs - rhs] is [-(rhs - lhs)], for every combination of conversions. *)
Theorem flipped_orderings_agree
    {T1 T2 : Type} `{!is_convertible T1 T2, !is_convertible T2 T1}
    `{!DistanceTo T1 T2, !DistanceTo T2 T1}
    (valid1 : T1 → Prop) (valid2 : T2 → Prop) (lhs : T1) (rhs : T2) :
  distanceTo_antisymmetric valid1 valid2 →
  valid1 lhs → valid2 rhs →
  RandomAccessIteratorFacade.operator_gt lhs rhs
  = RandomAccessIteratorFacade.operator_lt rhs lhs ∧
  RandomAccessIteratorFacade.operator_ge lhs rhs
  = RandomAccessIteratorFacade.operator_le rhs lhs ∧
  RandomAccessIteratorFacade.operator_diff lhs rhs
  = Z.opp <$> RandomAccessIteratorFacade.operator_diff rhs lhs.
Proof.
  intros Hanti H1 H2. specialize (Hanti lhs rhs H1 H2).
  autounfold with facade_ops. unfold EnableIfInterOperable, Conversion_exists.
  rewrite (IsInteroperable_sym (T1 := T2)).
  destruct (IsInteroperable T1 T2); [|done].
  rewrite Hanti.
  destruct (is_convertible_value T2 T1), (is_convertible_value T1 T2); simpl;
    repeat split; f_equal; compare_with_zero.
Qed.

(** X6: when the [equals] primitives of the two types agree on a pair of
    iterators, [==] and [!=] do not depend on the order of their operands,
    in every tier and for every combination of conversions. *)
Theorem equality_is_symmetric
    {T1 T2 : Type} `{!is_convertible T1 T2, !is_convertible T2 T1}
    `{!Equals T1 T2, !Equals T2 T1} (lhs : T1) (rhs : T2) :
  equals lhs rhs = equals rhs lhs →
  ForwardIteratorFacade.operator_eq lhs rhs
  = ForwardIteratorFacade.operator_eq rhs lhs ∧
  ForwardIteratorFacade.operator_ne lhs rhs
  = ForwardIteratorFacade.operator_ne rhs lhs ∧
  BidirectionalIteratorFacade.operator_eq lhs rhs
  = BidirectionalIteratorFacade.operator_eq rhs lhs ∧
  BidirectionalIteratorFacade.operator_ne lhs rhs
  = BidirectionalIteratorFacade.operator_ne rhs lhs ∧
  RandomAccessIteratorFacade.operator_eq lhs rhs
  = RandomAccessIteratorFacade.operator_eq rhs lhs ∧
  RandomAccessIteratorFacade.operator_ne lhs rhs
  = RandomAccessIteratorFacade.operator_ne rhs lhs.
Proof.
  intros Hsym.
  autounfold with facade_ops. unfold EnableIfInterOperable, Conversion_exists.
  rewrite (IsInteroperable_sym (T1 := T2)). rewrite Hsym.
  destruct (IsInteroperable T1 T2), (is_convertible_value T2 T1),
    (is_convertible_value T1 T2); done.
Qed.

(** ** Members of the bidirectional and random-access tiers *)

(** X7: post-decrement and post-increment of the bidirectional and of the
    random-access facade return the state the iterator had before the call;
    the iterator itself has been stepped once by [decrement] (by
    [increment]) and nothing else in the store has changed. *)
Theorem post_decrement_returns_old_state
    {T : Type} `{!Increment T, !Decrement T}
    (σ : gmap loc T) (this : loc) (it : T) :
  σ !! this = Some it →
  BidirectionalIteratorFacade.operator_postdec this σ
  = Some (it, <[this := decrement it]> σ) ∧
  RandomAccessIteratorFacade.operator_postdec this σ
  = Some (it, <[this := decrement it]> σ) ∧
  BidirectionalIteratorFacade.operator_postinc this σ
  = Some (it, <[this := increment it]> σ) ∧
  RandomAccessIteratorFacade.operator_postinc this σ
  = Some (it, <[this := increment it]> σ).
Proof.
  intros Hthis. repeat split.
  all: apply copy_step_return; [|done].
  all: intros σ0 H0; by apply call_then_ret.
Qed.

(** X8: [a += n] leaves in [a] exactly the iterator that [a + n] returns,
    and [a -= n] the one that [a - n] returns; the binary forms do not
    change the store, the compound forms change [a] only and return it;
    [a - n] is [a + (-n)]. *)
Theorem compound_assignment_matches_binary
    {T : Type} `{!Advance T}
    (σ : gmap loc T) (this : loc) (a : T) (n : DifferenceType) :
  σ !! this = Some a →
  ∃ sum diff,
    RandomAccessIteratorFacade.operator_plus this n σ = Some (sum, σ) ∧
    RandomAccessIteratorFacade.operator_plus_assign this n σ
    = Some (this, <[this := sum]> σ) ∧
    RandomAccessIteratorFacade.operator_minus this n σ = Some (diff, σ) ∧
    RandomAccessIteratorFacade.operator_minus_assign this n σ
    = Some (this, <[this := diff]> σ) ∧
    RandomAccessIteratorFacade.operator_plus this (- n) σ = Some (diff, σ).
Proof.
  intros Hthis. exists (advance a n), (advance a (- n)).
  rewrite (operator_plus_run _ _ _ _ Hthis).
  rewrite (operator_minus_run _ _ _ _ Hthis).
  rewrite (operator_plus_run _ _ _ _ Hthis).
  unfold RandomAccessIteratorFacade.operator_plus_assign,
    RandomAccessIteratorFacade.operator_minus_assign.
  rewrite !(call_then_ret _ _ _ _ Hthis). done.
Qed.

(** X9: the prefix operators return the iterator they were called on, so
    that chained calls act on one object: [++(++a)] increments [a] twice,
    [--(--a)] decrements it twice and [(a += n) -= m] advances it by [n] and
    then by [-m]. *)
Theorem chained_prefix_operators
    {T : Type} `{!Increment T, !Decrement T, !Advance T}
    (σ : gmap loc T) (this : loc) (a : T) (n m : DifferenceType) :
  σ !! this = Some a →
  (l <-- RandomAccessIteratorFacade.operator_preinc this ;;
   RandomAccessIteratorFacade.operator_preinc l) σ
  = Some (this, <[this := increment (increment a)]> σ) ∧
  (l <-- RandomAccessIteratorFacade.operator_predec this ;;
   RandomAccessIteratorFacade.operator_predec l) σ
  = Some (this, <[this := decrement (decrement a)]> σ) ∧
  (l <-- RandomAccessIteratorFacade.operator_plus_assign this n ;;
   RandomAccessIteratorFacade.operator_minus_assign l m) σ
  = Some (this, <[this := advance (advance a n) (- m)]> σ).
Proof.
  intros Hthis.
  unfold RandomAccessIteratorFacade.operator_preinc,
    RandomAccessIteratorFacade.operator_predec,
    RandomAccessIteratorFacade.operator_plus_assign,
    RandomAccessIteratorFacade.operator_minus_assign.
  repeat split.
  all: unfold bind at 1; rewrite (call_then_ret _ _ _ _ Hthis).
  all: erewrite call_then_ret by apply lookup_insert_eq.
  all: by rewrite insert_insert_eq.
Qed.

(** ** The further properties on the test iterator *)

Section ConstCorrectPairFurther.
#[local] Existing Instance convertible_to_const.

Lemma flipped_orderings_agree_witness :
  distanceTo_antisymmetric
    (in_range 1 5 (q := Mutable)) (in_range 1 5 (q := Constant)) ∧
  in_range 1 5 (at_ Mutable 3) ∧
  in_range 1 5 (at_ Constant 4) ∧
  RandomAccessIteratorFacade.operator_gt (at_ Mutable 3) (at_ Constant 4)
  = RandomAccessIteratorFacade.operator_lt (at_ Constant 4) (at_ Mutable 3) ∧
  RandomAccessIteratorFacade.operator_ge (at_ Mutable 3) (at_ Constant 4)
  = RandomAccessIteratorFacade.operator_le (at_ Constant 4) (at_ Mutable 3) ∧
  RandomAccessIteratorFacade.operator_diff (at_ Mutable 3) (at_ Constant 4)
  = Z.opp <$> RandomAccessIteratorFacade.operator_diff
                (at_ Constant 4) (at_ Mutable 3).
Proof.
  assert (in_range 1 5 (at_ Mutable 3)) as H1
    by (split; [reflexivity | vm_compute; split; discriminate]).
  assert (in_range 1 5 (at_ Constant 4)) as H2
    by (split; [reflexivity | vm_compute; split; discriminate]).
  split; [apply test_distanceTo_antisymmetric, five_is_small|].
  split; [exact H1|]. split; [exact H2|].
  apply (flipped_orderings_agree (in_range 1 5) (in_range 1 5)).
  - apply test_distanceTo_antisymmetric, five_is_small.
  - exact H1.
  - exact H2.
Defined.

Lemma equality_is_symmetric_witness :
  equals (at_ Mutable 2) (at_ Constant 2)
  = equals (at_ Constant 2) (at_ Mutable 2) ∧
  ForwardIteratorFacade.operator_eq (at_ Mutable 2) (at_ Constant 2)
  = ForwardIteratorFacade.operator_eq (at_ Constant 2) (at_ Mutable 2) ∧
  RandomAccessIteratorFacade.operator_ne (at_ Mutable 2) (at_ Constant 2)
  = RandomAccessIteratorFacade.operator_ne (at_ Constant 2) (at_ Mutable 2).
Proof.
  split; [reflexivity|].
  pose proof (equality_is_symmetric (at_ Mutable 2) (at_ Constant 2) eq_refl)
    as H.
  split; apply H.
Defined.

End ConstCorrectPairFurther.

Lemma post_decrement_returns_old_state_witness :
  object_at_0 Mutable (at_ Mutable 2) !! 0%nat = Some (at_ Mutable 2) ∧
  BidirectionalIteratorFacade.operator_postdec 0%nat
    (object_at_0 Mutable (at_ Mutable 2))
  = Some (at_ Mutable 2,
          <[0%nat := decrement (at_ Mutable 2)]>
            (object_at_0 Mutable (at_ Mutable 2))).
Proof.
  split; [reflexivity|].
  apply (post_decrement_returns_old_state
           (object_at_0 Mutable (at_ Mutable 2)) 0%nat (at_ Mutable 2)).
  reflexivity.
Defined.

Lemma compound_assignment_matches_binary_witness :
  object_at_0 Mutable (at_ Mutable 1) !! 0%nat = Some (at_ Mutable 1) ∧
  ∃ sum diff,
    RandomAccessIteratorFacade.operator_plus 0%nat 3
      (object_at_0 Mutable (at_ Mutable 1))
    = Some (sum, object_at_0 Mutable (at_ Mutable 1)) ∧
    RandomAccessIteratorFacade.operator_plus_assign 0%nat 3
      (object_at_0 Mutable (at_ Mutable 1))
    = Some (0%nat, <[0%nat := sum]> (object_at_0 Mutable (at_ Mutable 1))) ∧
    RandomAccessIteratorFacade.operator_minus 0%nat 3
      (object_at_0 Mutable (at_ Mutable 1))
    = Some (diff, object_at_0 Mutable (at_ Mutable 1)) ∧
    RandomAccessIteratorFacade.operator_minus_assign 0%nat 3
      (object_at_0 Mutable (at_ Mutable 1))
    = Some (0%nat, <[0%nat := diff]> (object_at_0 Mutable (at_ Mutable 1))) ∧
    RandomAccessIteratorFacade.operator_plus 0%nat (- 3)
      (object_at_0 Mutable (at_ Mutable 1))
    = Some (diff, object_at_0 Mutable (at_ Mutable 1)).
Proof.
  split; [reflexivity|].
  apply (compound_assignment_matches_binary
           (object_at_0 Mutable (at_ Mutable 1)) 0%nat (at_ Mutable 1) 3).
  reflexivity.
Defined.

Lemma chained_prefix_operators_witness :
  object_at_0 Mutable (at_ Mutable 1) !! 0%nat = Some (at_ Mutable 1) ∧
  (l <-- RandomAccessIteratorFacade.operator_plus_assign 0%nat 3 ;;
   RandomAccessIteratorFacade.operator_minus_assign l 2)
    (object_at_0 Mutable (at_ Mutable 1))
  = Some (0%nat,
          <[0%nat := advance (advance (at_ Mutable 1) 3) (- 2)]>
            (object_at_0 Mutable (at_ Mutable 1))).
Proof.
  split; [reflexivity|].
  apply (chained_prefix_operators
           (object_at_0 Mutable (at_ Mutable 1)) 0%nat (at_ Mutable 1) 3 2).
  reflexivity.
Defined.

(** ** The test iterator at the limits of [size_t] *)

Section TestIteratorWraps.
Context (q : constness).
#[local] Existing Instance convertible_both_ways.


End TestIteratorWraps.

Section TestIteratorWrapsWitness.
#[local] Existing Instance convertible_both_ways.


End TestIteratorWrapsWitness.

Lemma iterate_preinc {T : Type} `{!Increment T}
    (σ : gmap loc T) (this : loc) (it : T) (k : nat) :
  σ !! this = Some it →
  Nat.iter k (λ m, m ;;; ForwardIteratorFacade.operator_preinc this)
    (ret this) σ
  = Some (this, <[this := Nat.iter k increment it]> σ).
Proof.
  intros Hthis. induction k as [|k IH]; simpl.
  - unfold ret. by rewrite insert_id.
  - unfold bind at 1. rewrite IH.
    unfold ForwardIteratorFacade.operator_preinc.
    rewrite (call_then_ret _ _ _ (Nat.iter k increment it))
      by apply lookup_insert_eq.
    by rewrite insert_insert_eq.
Qed.

Lemma test_increment_iter q cont (k : nat) :
  Z.of_nat k < 18446744073709551616 →
  Nat.iter k increment (make q cont 0) = make q cont (Z.of_nat k).
Proof.
  induction k as [|k IH]; intros Hk; [reflexivity|].
  simpl Nat.iter. rewrite IH by lia.
  unfold increment, test_increment, make, size_t_wrap. simpl. f_equal.
  rewrite Nat2Z.inj_succ. Z.div_mod_to_equations. lia.
Qed.

(** X11: a test iterator constructed at position 0 of a container and
    pre-incremented [k] times through the forward facade dereferences to
    the element of index [k] of the container's [values_], for every index
    inside the array. *)
Theorem test_iterator_visits_elements_in_order
    (q : constness) (mem : gmap nat (list Z)) (cont : nat)
    (values_ : list Z) (k : nat) (x : Z) :
  mem !! cont = Some values_ →
  values_ !! k = Some x →
  Z.of_nat k < 18446744073709551616 →
  ∃ it σ',
    Nat.iter k (λ m, m ;;; ForwardIteratorFacade.operator_preinc 0%nat)
      (ret 0%nat) (object_at_0 q (make q cont 0)) = Some (0%nat, σ') ∧
    σ' !! 0%nat = Some it ∧
    read mem (ForwardIteratorFacade.operator_star it) = Some x.
Proof.
  intros Hmem Hx Hk.
  exists (make q cont (Z.of_nat k)),
    (<[0%nat := make q cont (Z.of_nat k)]> (object_at_0 q (make q cont 0))).
  split; [|split].
  - rewrite (iterate_preinc _ _ (make q cont 0)) by apply lookup_singleton_eq.
    by rewrite test_increment_iter.
  - apply lookup_insert_eq.
  - unfold ForwardIteratorFacade.operator_star, dereference, test_dereference,
      read, make, size_t_wrap. simpl. rewrite Hmem.
    rewrite Z.mod_small by lia. by rewrite Nat2Z.id.
Qed.

Lemma test_iterator_visits_elements_in_order_witness :
  five !! 1%nat = Some [10; 20; 30; 40; 50] ∧
  [10; 20; 30; 40; 50] !! 3%nat = Some 40 ∧
  Z.of_nat 3 < 18446744073709551616 ∧
  ∃ it σ',
    Nat.iter 3 (λ m, m ;;; ForwardIteratorFacade.operator_preinc 0%nat)
      (ret 0%nat) (object_at_0 Mutable (make Mutable 1 0)) = Some (0%nat, σ') ∧
    σ' !! 0%nat = Some it ∧
    read five (ForwardIteratorFacade.operator_star it) = Some 40.
Proof.
  split; [reflexivity|]. split; [reflexivity|]. split; [reflexivity|].
  apply (test_iterator_visits_elements_in_order Mutable five 1
           [10; 20; 30; 40; 50] 3 40); reflexivity.
Defined.

(** * Properties of [math.hh] *)

(** ** The counting loop *)

Section CountingLoop.
Context {A : Type}.
Implicit Types (body : A → Z → A) (init : A).

Lemma for_range_empty first last body init :
  last ≤ first → for_range first last body init = init.
Proof. intros H. unfold for_range. by rewrite seqZ_nil by lia. Qed.

Lemma for_range_last first last body init :
  first ≤ last →
  for_range first (last + 1) body init
  = body (for_range first last body init) last.
Proof.
  intros H. unfold for_range.
  replace (last + 1 - first) with (Z.of_nat (S (Z.to_nat (last - first))))
    by lia.
  rewrite seqZ_S, foldl_snoc. rewrite Z2Nat.id by lia. f_equal. lia.
Qed.

Lemma for_range_split first mid last body init :
  first ≤ mid ≤ last →
  for_range first last body init
  = for_range mid last body (for_range first mid body init).
Proof.
  intros H. unfold for_range.
  replace (last - first) with ((mid - first) + (last - mid)) by lia.
  rewrite seqZ_app by lia. rewrite foldl_app. do 2 f_equal. lia.
Qed.

End CountingLoop.

(** The product loop of [factorial] and [binomial] scales with its start
    value. *)
Lemma product_loop_scale first last init :
  for_range first last (λ acc i, acc * (i + 1)) init
  = init * for_range first last (λ acc i, acc * (i + 1)) 1.
Proof.
  unfold for_range. generalize (seqZ first (last - first)) as l.
  intros l. revert init. induction l as [|x l IH]; intros init; simpl.
  - lia.
  - rewrite IH. rewrite (IH (1 * (x + 1))). lia.
Qed.

(** ** [power] *)

Lemma power_loop m absp :
  0 ≤ absp → for_range 0 absp (λ result _, result * m) 1 = m ^ absp.
Proof.
  revert absp. apply natlike_ind.
  - reflexivity.
  - intros p Hp IH. unfold Z.succ. rewrite for_range_last by done.
    rewrite IH. rewrite Z.pow_add_r by lia. lia.
Qed.




(** X12: for an exponent [p >= 0], [power(m, p)] is [m] to the [p]; in
    particular [power(m, 0)] is 1 for every [m], zero included. *)
Theorem power_nonnegative_exponent (m p : Z) :
  0 ≤ p → power m p = Some (m ^ p).
Proof.
  intros H. unfold power. destruct (Z.ltb_spec p 0); [lia|].
  by rewrite power_loop.
Qed.

Lemma power_nonnegative_exponent_witness :
  0 ≤ 4 ∧ power 3 4 = Some (3 ^ 4).
Proof. split; [lia | apply power_nonnegative_exponent; lia]. Defined.



(** ** [factorial] *)

Lemma factorial_nonpositive n : n ≤ 0 → factorial n = 1.
Proof. intros H. unfold factorial. by apply for_range_empty. Qed.

Lemma factorial_succ n : 0 ≤ n → factorial (n + 1) = (n + 1) * factorial n.
Proof. intros H. unfold factorial. rewrite for_range_last by done. lia. Qed.

Lemma factorial_positive n : 0 < factorial n.
Proof.
  destruct (Z.le_gt_cases n 0) as [H|H]; [rewrite factorial_nonpositive; lia|].
  assert (0 ≤ n) as Hn by lia. clear H. revert n Hn.
  apply natlike_ind.
  - rewrite factorial_nonpositive; lia.
  - intros n Hn IH. unfold Z.succ. rewrite factorial_succ by done. nia.
Qed.

Lemma factorial_of_nat (m : nat) : factorial (Z.of_nat m) = Factorial m.
Proof.
  induction m as [|m IH]; [reflexivity|].
  rewrite Nat2Z.inj_succ. unfold Z.succ. rewrite factorial_succ by lia.
  cbn [Factorial]. rewrite IH. lia.
Qed.

(** X14: the function [factorial(n)] computes the value of the template
    [Factorial<n>] for every [n >= 0], and returns 1, the value of
    [Factorial<0>], for every negative [n]. *)
Theorem factorial_is_Factorial (n : Z) :
  factorial n = Factorial (Z.to_nat n).
Proof.
  destruct (Z.le_gt_cases n 0) as [H|H].
  - rewrite factorial_nonpositive by done.
    by replace (Z.to_nat n) with 0%nat by lia.
  - rewrite <- factorial_of_nat. f_equal. lia.
Qed.


(** ** [binomial] *)

Lemma binomial_body n k :
  binomial n k =
  if decide (k < 0 ∨ k > n) then 0
  else if decide (2 * k > n) then binomial n (n - k)
  else for_range (n - k) n (λ bin i, bin * (i + 1)) 1 ÷ factorial k.
Proof.
  rewrite binomial_equation. rewrite !Z.gtb_ltb.
  destruct (Z.ltb_spec k 0), (Z.ltb_spec n k), (Z.ltb_spec n (2 * k)); simpl;
    repeat case_decide; try lia; reflexivity.
Qed.

(** The loop of [binomial] computes [n! / (n-k)!]. *)
Lemma falling_product n k :
  0 ≤ k ≤ n →
  for_range (n - k) n (λ bin i, bin * (i + 1)) 1 * factorial (n - k)
  = factorial n.
Proof.
  intros H. unfold factorial at 2.
  rewrite (for_range_split 0 (n - k) n) by lia.
  rewrite (product_loop_scale (n - k) n (for_range _ _ _ _)).
  fold (factorial (n - k)). lia.
Qed.

(** [k! (n-k)!] divides [n!]. *)
Lemma factorial_divides n :
  0 ≤ n →
  ∀ k, 0 ≤ k ≤ n → ∃ c, c * (factorial k * factorial (n - k)) = factorial n.
Proof.
  revert n. apply (natlike_ind (λ n, ∀ k, 0 ≤ k ≤ n → ∃ c, _)).
  - intros k Hk. exists 1. assert (k = 0) as -> by lia. reflexivity.
  - intros n Hn IH k Hk. unfold Z.succ in *.
    destruct (decide (k = 0)) as [->|Hk0].
    { exists 1. rewrite (factorial_nonpositive 0) by lia.
      replace (n + 1 - 0) with (n + 1) by lia. lia. }
    destruct (decide (k = n + 1)) as [->|Hkn].
    { exists 1. replace (n + 1 - (n + 1)) with 0 by lia.
      rewrite (factorial_nonpositive 0) by lia. lia. }
    destruct (IH (k - 1)) as [c1 H1]; [lia|].
    destruct (IH k) as [c2 H2]; [lia|].
    exists (c1 + c2).
    rewrite (factorial_succ n) by lia.
    replace (n + 1 - k) with ((n - k) + 1) by lia.
    rewrite (factorial_succ (n - k)) by lia.
    replace (n - (k - 1)) with ((n - k) + 1) in H1 by lia.
    rewrite (factorial_succ (n - k)) in H1 by lia.
    assert (factorial k = k * factorial (k - 1)) as Hk1.
    { replace k with ((k - 1) + 1) at 1 by lia.
      rewrite factorial_succ by lia. f_equal. lia. }
    rewrite Hk1 in *.
    set (a := factorial (k - 1)) in *. set (b := factorial (n - k)) in *.
    set (f := factorial n) in *.
    replace ((c1 + c2) * (k * a * ((n - k + 1) * b)))
      with (k * (c1 * (a * ((n - k + 1) * b)))
            + (n - k + 1) * (c2 * (k * a * b))) by ring.
    rewrite H1, H2. ring.
Qed.

Lemma binomial_lower_half n k :
  0 ≤ k → 2 * k ≤ n →
  binomial n k * (factorial k * factorial (n - k)) = factorial n.
Proof.
  intros Hk Hn. rewrite binomial_body.
  destruct (decide (k < 0 ∨ k > n)); [lia|].
  destruct (decide (2 * k > n)); [lia|].
  destruct (factorial_divides n ltac:(lia) k ltac:(lia)) as [c Hc].
  pose proof (falling_product n k ltac:(lia)) as Hp.
  pose proof (factorial_positive k) as Hfk.
  pose proof (factorial_positive (n - k)) as Hfnk.
  assert (for_range (n - k) n (λ bin i, bin * (i + 1)) 1 = c * factorial k)
    as ->.
  { apply (Z.mul_cancel_r _ _ (factorial (n - k))); [lia|].
    rewrite Hp, <- Hc. ring. }
  rewrite Z.quot_mul by lia. exact Hc.
Qed.

Lemma binomial_correct n k :
  0 ≤ k ≤ n →
  binomial n k * (factorial k * factorial (n - k)) = factorial n.
Proof.
  intros H. destruct (decide (2 * k ≤ n)) as [Hlow|Hhigh].
  - by apply binomial_lower_half; lia.
  - rewrite binomial_body.
    destruct (decide (k < 0 ∨ k > n)); [lia|].
    destruct (decide (2 * k > n)); [|lia].
    pose proof (binomial_lower_half n (n - k) ltac:(lia) ltac:(lia)) as Hb.
    replace (n - (n - k)) with k in Hb by lia. rewrite <- Hb. ring.
Qed.

Lemma binomial_out_of_range n k : k < 0 ∨ n < k → binomial n k = 0.
Proof.
  intros H. rewrite binomial_body.
  destruct (decide (k < 0 ∨ k > n)); [done|lia].
Qed.

(** X16: for [0 <= k <= n], [binomial(n, k)] is the binomial coefficient:
    multiplied by [k!] and [(n-k)!] it gives [n!]; the division at the end
    of the function is exact. *)
Theorem binomial_times_factorials (n k : Z) :
  0 ≤ k ≤ n →
  binomial n k * (factorial k * factorial (n - k)) = factorial n.
Proof. apply binomial_correct. Qed.

Lemma binomial_times_factorials_witness :
  0 ≤ 2 ≤ 5 ∧ binomial 5 2 * (factorial 2 * factorial (5 - 2)) = factorial 5.
Proof. split; [lia | apply binomial_times_factorials; lia]. Defined.



(** X18: [binomial(n, k)] equals [binomial(n, n - k)] for all integers [n]
    and [k], inside and outside the range [0 <= k <= n]. *)
Theorem binomial_symmetry (n k : Z) : binomial n k = binomial n (n - k).
Proof.
  destruct (decide (0 ≤ k ≤ n)) as [H|H].
  - pose proof (binomial_correct n k H) as H1.
    pose proof (binomial_correct n (n - k) ltac:(lia)) as H2.
    replace (n - (n - k)) with k in H2 by lia.
    pose proof (factorial_positive k). pose proof (factorial_positive (n - k)).
    apply (Z.mul_cancel_r _ _ (factorial k * factorial (n - k))); [nia|].
    rewrite H1, <- H2. ring.
  - rewrite !binomial_out_of_range by lia. done.
Qed.



(** X20: the overload of [binomial] for two equal compile-time constants
    returns what the general function returns at [(n, n)]: 1 for [n >= 0]
    and 0 for negative [n]. *)
Theorem binomial_equal_arguments_is_binomial (n : Z) :
  binomial_equal_arguments n = binomial n n.
Proof.
  unfold binomial_equal_arguments. destruct (Z.geb_spec n 0) as [H|H].
  - pose proof (binomial_correct n n ltac:(lia)) as Hc.
    replace (n - n) with 0 in Hc by lia.
    rewrite (factorial_nonpositive 0) in Hc by lia.
    pose proof (factorial_positive n). nia.
  - rewrite binomial_out_of_range by lia. done.
Qed.

(** ** [sign] and [conjugateComplex] *)

(** X21: [sign(val) * val] is the absolute value of [val], and [sign(val)]
    squared is 1. *)
Theorem sign_times_value_is_abs (val : Z) :
  sign val * val = Z.abs val ∧ sign val * sign val = 1.
Proof. unfold sign. destruct (Z.ltb_spec val 0); lia. Qed.

(** X22: [sign] is odd away from zero: [sign(-val)] is [-sign(val)] for
    every [val] other than 0 (at 0 both sides of the negation are 1). *)
Theorem sign_of_negation (val : Z) :
  val ≠ 0 → sign (- val) = - sign val.
Proof.
  intros H. unfold sign.
  destruct (Z.ltb_spec val 0), (Z.ltb_spec (- val) 0); lia.
Qed.

Lemma sign_of_negation_witness : 7 ≠ 0 ∧ sign (- 7) = - sign 7.
Proof. split; [lia | apply (sign_of_negation 7); lia]. Defined.

(** X23: over a component type whose negation is an involution,
    [conjugateComplex] on [std::complex] is an involution that keeps the
    real part, and it fixes exactly the values whose imaginary part equals
    its own negation. *)
Theorem conjugateComplex_involution
    {K : Type} `{!Negate K} (c : complex K) :
  (∀ x : K, negate (negate x) = x) →
  conjugateComplex_complex (conjugateComplex_complex c) = c ∧
  real (conjugateComplex_complex c) = real c ∧
  (conjugateComplex_complex c = c ↔ negate (imag c) = imag c).
Proof.
  intros Hneg. destruct c as [re im]. unfold conjugateComplex_complex. simpl.
  split; [by rewrite Hneg|]. split; [done|].
  split; [intros [= H]; exact H | intros H; by rewrite H].
Qed.

Lemma conjugateComplex_involution_witness :
  (∀ x : Z, negate (negate x) = x) ∧
  conjugateComplex_complex (conjugateComplex_complex (mkComplex 3 4))
  = mkComplex 3 4.
Proof.
  split; [intros x; unfold negate, Z_negate; lia|].
  apply (conjugateComplex_involution (mkComplex 3 4)).
  intros x. unfold negate, Z_negate. lia.
Defined.

(** ** The functions of [math.hh] on small arguments *)

Example power_values :
  (power 2 10, power 0 0, power (-3) 3, power 2 (-1), power 0 (-1))
  = (Some 1024, Some 1, Some (-27), Some 0, None).
Proof. reflexivity. Qed.

Example factorial_values :
  (factorial (-1), factorial 0, factorial 1, factorial 5, Factorial 5)
  = (1, 1, 1, 120, 120).
Proof. reflexivity. Qed.

Example binomial_values :
  (binomial 5 2, binomial 5 3, binomial 4 2, binomial 6 0, binomial 6 6,
   binomial 3 5, binomial (-2) (-2))
  = (10, 10, 6, 1, 1, 0, 0).
Proof. vm_compute. reflexivity. Qed.
